(** * PgOkache dashboard client: a shallow embedding of [frontend/src/App.tsx]

    The development follows the TypeScript source top to bottom: the JSON
    values the client receives, the entity records it declares, the pure
    helpers ([pgMajorVersion], [pgConfigName], [formatNumber], [formatMs]),
    the loaders that index fetched lists by instance, the request handlers
    and their error reporting, and the values the view derives from the
    state.  React state is a record threaded through the handlers; an HTTP
    exchange is an explicit [response] argument. *)

From Stdlib Require Import ZArith QArith Lqa Sorting.Sorted Ascii.
From stdpp Require Import list gmap strings pretty.

Local Open Scope string_scope.
Local Open Scope Z_scope.

#[local] Set Warnings "-register-all".

(** ** JavaScript values *)

(** A parameter or field typed [T | null | undefined]. *)
Inductive optional (A : Type) : Type :=
| Undefined
| Null
| Value (a : A).
Arguments Undefined {A}.
Arguments Null {A}.
Arguments Value {A} a.

(** [x ?? y] *)
Definition nullish {A : Type} (x y : optional A) : optional A :=
  match x with
  | Value a => Value a
  | _ => y
  end.

(** [!x] for an optional integer: [undefined], [null] and [0] are falsy. *)
Definition falsy (x : optional Z) : bool :=
  match x with
  | Value v => v =? 0
  | _ => true
  end.

(** A value produced by [JSON.parse].  Numbers are the finite ones JSON can
    write down; an object keeps its members in document order. *)
Inductive json : Type :=
| JNull
| JBool (b : bool)
| JNum (q : Q)
| JStr (s : string)
| JArr (items : list json)
| JObj (members : list (string * json)).

(** Member lookup as [JSON.parse] resolves it: the last occurrence of a
    repeated key wins. *)
Definition member (key : string) (members : list (string * json)) : option json :=
  fold_left (fun found kv => if String.eqb (fst kv) key then Some (snd kv) else found)
            members None.

(** [body.detail] on a parsed body.  Only objects carry the member; reading
    it off a string, number, boolean or array gives [undefined] ([None]). *)
Definition detailField (body : json) : option json :=
  match body with
  | JObj members => member "detail" members
  | _ => None
  end.

(** ** Entities (the [type] declarations of App.tsx) *)

Module Instance.
Record t : Type := {
  id : Z;
  name : string;
  host : string;
  port : Z;
  dbname : string;
  user : string;
  ssl_mode : string;
  created_at : string
}.
End Instance.

Module SetupState.
Record t : Type := {
  id : Z;
  instance : Z;
  pg_version_num : optional Z;  (* number | null *)
  preload_ok : bool;
  ext_created : bool;
  ready : bool;
  last_checked_at : string
}.
End SetupState.

(** An entry of [SetupInfo.checks]: [string | number | boolean | null]. *)
Inductive checkValue : Type :=
| CheckString (s : string)
| CheckNumber (q : Q)
| CheckBool (b : bool)
| CheckNull.

Module SetupInfo.
Record t : Type := {
  status : string;
  ready : bool;
  pg_version_num : Z;
  preload_ok : bool;
  ext_created : bool;
  checks : list (string * checkValue);
  params : list (string * string)
}.
End SetupInfo.

Module QueryStat.
Record t : Type := {
  queryid : string;
  query_norm : string;
  calls : Q;
  total_time_ms : Q;
  mean_time_ms : Q;
  rows : Q;
  shared_blks_read : Q;
  shared_blks_hit : Q;
  temp_blks_written : Q;
  wal_bytes : Q
}.
End QueryStat.

Module Snapshot.
Record t : Type := {
  id : Z;
  instance : Z;
  captured_at : string;
  query_stats : list QueryStat.t
}.
End Snapshot.

Module Recommendation.
Record t : Type := {
  id : Z;
  instance : Z;
  type : string;
  title : string;
  details : string;
  sql : string;
  confidence : string;
  score : Q;
  status : string;
  created_at : string
}.
End Recommendation.

Record FormState : Type := {
  form_name : string;
  form_host : string;
  form_port : string;
  form_dbname : string;
  form_user : string;
  form_password : string;
  form_ssl_mode : string
}.

Definition defaultForm : FormState :=
  {| form_name := ""; form_host := ""; form_port := "5432"; form_dbname := "";
     form_user := ""; form_password := ""; form_ssl_mode := "prefer" |}.

(** ** Version helpers *)

(** [pgMajorVersion]: [null] on a falsy argument, otherwise
    [Math.floor(versionNum / 10000)].  On integers the floor of the quotient
    is [Z.div], which rounds towards minus infinity. *)
Definition pgMajorVersion (versionNum : optional Z) : optional Z :=
  match versionNum with
  | Value v => if falsy (Value v) then Null else Value (v / 10000)
  | _ => Null
  end.

(** [pgConfigName]: both arms of the version test name the same file. *)
Definition pgConfigName (major : optional Z) : string :=
  match major with
  | Value m =>
      if falsy (Value m) then "postgresql.conf"
      else if 12 <=? m then "postgresql.conf" else "postgresql.conf"
  | _ => "postgresql.conf"
  end.

(** ** Display formatters *)

Section Formatters.
(** The two runtime services the formatters call, over whatever the
    runtime takes a number to be:
    [new Intl.NumberFormat().format(value)] and [value.toFixed(digits)]. *)
Context {number : Type}.
Variable numberFormat : number -> string.
Variable toFixed : number -> nat -> string.

Definition placeholder : string := "—".

Definition formatNumber (value : optional number) : string :=
  match value with
  | Value v => numberFormat v
  | _ => placeholder
  end.

Definition formatMs (value : optional number) : string :=
  match value with
  | Value v => toFixed v 1 +:+ " ms"
  | _ => placeholder
  end.

End Formatters.

(** One [<tr>] of the snapshot table (lines 640-648): the five cells, left
    to right. *)
Definition renderRow (numberFormat : Q → string) (toFixed : Q → nat → string)
    (stat : QueryStat.t) : string * string * string * string * string :=
  (QueryStat.query_norm stat,
   formatNumber numberFormat (Value (QueryStat.calls stat)),
   formatMs toFixed (Value (QueryStat.total_time_ms stat)),
   formatMs toFixed (Value (QueryStat.mean_time_ms stat)),
   formatNumber numberFormat (Value (QueryStat.rows stat))).

(** ** [Array.prototype.sort] *)

Section ArraySort.
Context {A : Type}.
(** [compareFn a b > 0] asks for [a] after [b]; otherwise their order is
    kept.  The sort is stable, so on a consistent comparator its result is
    the one a left-to-right insertion builds. *)
Variable compareFn : A -> A -> Q.

Fixpoint insertSorted (x : A) (l : list A) : list A :=
  match l with
  | [] => [x]
  | y :: rest =>
      if Qle_bool (compareFn x y) 0 then x :: y :: rest
      else y :: insertSorted x rest
  end.

Definition sort (l : list A) : list A := foldr insertSorted [] l.
End ArraySort.

(** [data.forEach(f)] over an accumulator the callback updates. *)
Definition forEach {A S : Type} (data : list A) (f : S -> A -> S) (init : S) : S :=
  fold_left f data init.

(** ** Indexing fetched lists by instance (the bodies of the loaders) *)

(** [loadSetupStates], lines 168-173: an entry is written only while the
    slot of its instance is still empty. *)
Definition indexSetupStates (data : list SetupState.t) : gmap Z SetupState.t :=
  forEach data
    (fun next state =>
       match next !! SetupState.instance state with
       | None => <[SetupState.instance state := state]> next
       | Some _ => next
       end) ∅.

(** [loadSnapshots], lines 185-190. *)
Definition indexSnapshots (data : list Snapshot.t) : gmap Z Snapshot.t :=
  forEach data
    (fun next snapshot =>
       match next !! Snapshot.instance snapshot with
       | None => <[Snapshot.instance snapshot := snapshot]> next
       | Some _ => next
       end) ∅.

(** The comparator handed to [list.sort] at line 210. *)
Definition byScoreDesc (a b : Recommendation.t) : Q :=
  (Recommendation.score b - Recommendation.score a)%Q.

(** [loadRecommendations], lines 202-208: create the bucket if absent, then
    push. *)
Definition bucketRecommendations (data : list Recommendation.t)
  : gmap Z (list Recommendation.t) :=
  forEach data
    (fun (next : gmap Z (list Recommendation.t)) rec =>
       let next' :=
         match next !! Recommendation.instance rec with
         | None => <[Recommendation.instance rec := []]> next
         | Some _ => next
         end in
       <[Recommendation.instance rec :=
           (default [] (next' !! Recommendation.instance rec) ++ [rec])%list]> next') ∅.

(** Lines 202-211: bucket, then sort every bucket by descending score. *)
Definition indexRecommendations (data : list Recommendation.t)
  : gmap Z (list Recommendation.t) :=
  sort byScoreDesc <$> bucketRecommendations data.

(** ** Error reporting *)

(** The text of an [Error].  A string argument is the message itself; any
    other defined argument is turned into text by the runtime, which is kept
    symbolic here. *)
Inductive message : Type :=
| Text (s : string)
| Coerced (v : json).

(** [new Error(detail?.detail ?? fallback)] where [detail] is
    [await res.json().catch(() => null)]: [body] is [None] when the body
    does not parse. *)
Definition failureMessage (fallback : string) (body : option json) : message :=
  match body ≫= detailField with
  | None | Some JNull => Text fallback
  | Some (JStr s) => Text s
  | Some v => Coerced v
  end.

(** One HTTP exchange as a handler sees it. *)
Inductive response (A : Type) : Type :=
| Ok (body : A)                 (* res.ok, body read as A *)
| NotOk (body : option json)    (* !res.ok *)
| Rejected (err : option string).
  (* fetch or res.json() threw: [Some m] for an Error with message m,
     [None] for any other thrown value *)
Arguments Ok {A} body.
Arguments NotOk {A} body.
Arguments Rejected {A} err.

(** [err instanceof Error ? err.message : fallback] *)
Definition caught (err : option string) (fallback : string) : message :=
  match err with
  | Some m => Text m
  | None => Text fallback
  end.

(** ** Component state (the [useState] cells of [App]) *)

Record AppState : Type := {
  instances : list Instance.t;
  setupStates : gmap Z SetupState.t;
  setupInfo : gmap Z SetupInfo.t;
  snapshots : gmap Z Snapshot.t;
  recommendations : gmap Z (list Recommendation.t);
  selectedId : option Z;
  form : FormState;
  resetPassword : string;
  busyAction : option string;
  error : option message
}.

Definition initialState : AppState :=
  {| instances := []; setupStates := ∅; setupInfo := ∅; snapshots := ∅;
     recommendations := ∅; selectedId := None; form := defaultForm;
     resetPassword := ""; busyAction := None; error := None |}.

Definition setInstances (v : list Instance.t) (st : AppState) : AppState :=
  {| instances := v; setupStates := setupStates st; setupInfo := setupInfo st;
     snapshots := snapshots st; recommendations := recommendations st;
     selectedId := selectedId st; form := form st;
     resetPassword := resetPassword st; busyAction := busyAction st;
     error := error st |}.

Definition setSetupStates (v : gmap Z SetupState.t) (st : AppState) : AppState :=
  {| instances := instances st; setupStates := v; setupInfo := setupInfo st;
     snapshots := snapshots st; recommendations := recommendations st;
     selectedId := selectedId st; form := form st;
     resetPassword := resetPassword st; busyAction := busyAction st;
     error := error st |}.

Definition setSetupInfo (v : gmap Z SetupInfo.t) (st : AppState) : AppState :=
  {| instances := instances st; setupStates := setupStates st; setupInfo := v;
     snapshots := snapshots st; recommendations := recommendations st;
     selectedId := selectedId st; form := form st;
     resetPassword := resetPassword st; busyAction := busyAction st;
     error := error st |}.

Definition setSnapshots (v : gmap Z Snapshot.t) (st : AppState) : AppState :=
  {| instances := instances st; setupStates := setupStates st;
     setupInfo := setupInfo st; snapshots := v;
     recommendations := recommendations st; selectedId := selectedId st;
     form := form st; resetPassword := resetPassword st;
     busyAction := busyAction st; error := error st |}.

Definition setRecommendations (v : gmap Z (list Recommendation.t)) (st : AppState)
  : AppState :=
  {| instances := instances st; setupStates := setupStates st;
     setupInfo := setupInfo st; snapshots := snapshots st;
     recommendations := v; selectedId := selectedId st; form := form st;
     resetPassword := resetPassword st; busyAction := busyAction st;
     error := error st |}.

Definition setSelectedId (v : option Z) (st : AppState) : AppState :=
  {| instances := instances st; setupStates := setupStates st;
     setupInfo := setupInfo st; snapshots := snapshots st;
     recommendations := recommendations st; selectedId := v; form := form st;
     resetPassword := resetPassword st; busyAction := busyAction st;
     error := error st |}.

Definition setForm (v : FormState) (st : AppState) : AppState :=
  {| instances := instances st; setupStates := setupStates st;
     setupInfo := setupInfo st; snapshots := snapshots st;
     recommendations := recommendations st; selectedId := selectedId st;
     form := v; resetPassword := resetPassword st;
     busyAction := busyAction st; error := error st |}.

Definition setResetPassword (v : string) (st : AppState) : AppState :=
  {| instances := instances st; setupStates := setupStates st;
     setupInfo := setupInfo st; snapshots := snapshots st;
     recommendations := recommendations st; selectedId := selectedId st;
     form := form st; resetPassword := v; busyAction := busyAction st;
     error := error st |}.

Definition setBusyAction (v : option string) (st : AppState) : AppState :=
  {| instances := instances st; setupStates := setupStates st;
     setupInfo := setupInfo st; snapshots := snapshots st;
     recommendations := recommendations st; selectedId := selectedId st;
     form := form st; resetPassword := resetPassword st; busyAction := v;
     error := error st |}.

Definition setError (v : option message) (st : AppState) : AppState :=
  {| instances := instances st; setupStates := setupStates st;
     setupInfo := setupInfo st; snapshots := snapshots st;
     recommendations := recommendations st; selectedId := selectedId st;
     form := form st; resetPassword := resetPassword st;
     busyAction := busyAction st; error := v |}.

(** ** Loaders and request handlers

    Each handler takes the state it starts from and the responses of the
    requests it may issue, in the order it issues them.  A [throw] inside
    the [try] lands in the [catch] of the same function, which records
    [err.message]. *)

Definition loadSetupStates (res : response (list SetupState.t)) (st : AppState)
  : AppState :=
  match res with
  | Ok data => setSetupStates (indexSetupStates data) st
  | NotOk _ =>
      setError (Some (caught (Some "Failed to load setup states.")
                             "Unable to load setup states.")) st
  | Rejected err => setError (Some (caught err "Unable to load setup states.")) st
  end.

Definition loadSnapshots (res : response (list Snapshot.t)) (st : AppState)
  : AppState :=
  match res with
  | Ok data => setSnapshots (indexSnapshots data) st
  | NotOk _ =>
      setError (Some (caught (Some "Failed to load snapshots.")
                             "Unable to load snapshots.")) st
  | Rejected err => setError (Some (caught err "Unable to load snapshots.")) st
  end.

Definition loadRecommendations (res : response (list Recommendation.t))
    (st : AppState) : AppState :=
  match res with
  | Ok data => setRecommendations (indexRecommendations data) st
  | NotOk _ =>
      setError (Some (caught (Some "Failed to load recommendations.")
                             "Unable to load recommendations.")) st
  | Rejected err => setError (Some (caught err "Unable to load recommendations.")) st
  end.

(** [checkSetup(instanceId)]: POST .../check_setup/, then reload the setup
    states. *)
Definition checkSetup (instanceId : Z) (resCheck : response SetupInfo.t)
    (resStates : response (list SetupState.t)) (st : AppState) : AppState :=
  let st := setBusyAction (Some "check") (setError None st) in
  let st :=
    match resCheck with
    | Ok info =>
        loadSetupStates resStates
          (setSetupInfo (<[instanceId := info]> (setupInfo st)) st)
    | NotOk body => setError (Some (failureMessage "Check failed." body)) st
    | Rejected err => setError (Some (caught err "Unable to check setup.")) st
    end in
  setBusyAction None st.

(** [handleSubmit]: POST /instances/, then [checkSetup] on the new id. *)
Definition handleSubmit (resCreate : response Instance.t)
    (resCheck : response SetupInfo.t) (resStates : response (list SetupState.t))
    (st : AppState) : AppState :=
  let st := setBusyAction (Some "create") (setError None st) in
  let st :=
    match resCreate with
    | Ok created =>
        let st := setInstances (created :: instances st) st in
        let st := setSelectedId (Some (Instance.id created)) st in
        let st :=
          setForm {| form_name := form_name (form st);
                     form_host := form_host defaultForm;
                     form_port := form_port defaultForm;
                     form_dbname := form_dbname defaultForm;
                     form_user := form_user defaultForm;
                     form_password := form_password defaultForm;
                     form_ssl_mode := form_ssl_mode defaultForm |} st in
        checkSetup (Instance.id created) resCheck resStates st
    | NotOk body =>
        setError (Some (failureMessage "Unable to save connection." body)) st
    | Rejected err => setError (Some (caught err "Unable to create connection.")) st
    end in
  setBusyAction None st.

(** [collectSnapshot(instanceId)]: POST .../collect/, then reload snapshots
    and recommendations.  The two reloads write different cells; only
    [error] is shared, and the model lets the recommendations reload write
    it last. *)
Definition collectSnapshot (instanceId : Z) (resCollect : response unit)
    (resSnapshots : response (list Snapshot.t))
    (resRecommendations : response (list Recommendation.t))
    (st : AppState) : AppState :=
  let st := setBusyAction (Some "collect") (setError None st) in
  let st :=
    match resCollect with
    | Ok _ => loadRecommendations resRecommendations (loadSnapshots resSnapshots st)
    | NotOk body => setError (Some (failureMessage "Snapshot failed." body)) st
    | Rejected err => setError (Some (caught err "Unable to collect snapshot.")) st
    end in
  setBusyAction None st.

(** [resetCredentials(instanceId)]: PATCH /instances/{id}/, then
    [checkSetup]. *)
Definition resetCredentials (instanceId : Z) (resPatch : response unit)
    (resCheck : response SetupInfo.t) (resStates : response (list SetupState.t))
    (st : AppState) : AppState :=
  let st := setBusyAction (Some "reset") (setError None st) in
  let st :=
    match resPatch with
    | Ok _ => checkSetup instanceId resCheck resStates (setResetPassword "" st)
    | NotOk body =>
        setError (Some (failureMessage "Unable to reset credentials." body)) st
    | Rejected err => setError (Some (caught err "Unable to reset credentials.")) st
    end in
  setBusyAction None st.

(** ** What the view derives from the state (lines 133-139, 639) *)

(** [selectedId ? cell[selectedId] ?? null : null]; the id [0] is falsy. *)
Definition selected {V : Type} (cell : gmap Z V) (st : AppState) : option V :=
  match selectedId st with
  | Some i => if i =? 0 then None else cell !! i
  | None => None
  end.

Definition selectedSetup (st : AppState) : option SetupInfo.t :=
  selected (setupInfo st) st.
Definition selectedSetupState (st : AppState) : option SetupState.t :=
  selected (setupStates st) st.
Definition selectedSnapshot (st : AppState) : option Snapshot.t :=
  selected (snapshots st) st.
Definition selectedRecommendations (st : AppState) : list Recommendation.t :=
  default [] (selected (recommendations st) st).

Definition selectedPgMajor (st : AppState) : optional Z :=
  pgMajorVersion
    (nullish
       (match selectedSetup st with
        | Some info => Value (SetupInfo.pg_version_num info)
        | None => Undefined
        end)
       (match selectedSetupState st with
        | Some state => SetupState.pg_version_num state
        | None => Undefined
        end)).

Definition configName (st : AppState) : string := pgConfigName (selectedPgMajor st).

(** [query_stats.slice(0, 8)]: the rows the table shows. *)
Definition surfacedRows (snapshot : Snapshot.t) : list QueryStat.t :=
  take 8 (Snapshot.query_stats snapshot).

(** ** Timestamps

    [captured_at] and [last_checked_at] are ISO-8601 instants as the API
    serialises them.  Written in one format and one zone, such strings are
    ordered in time exactly as they are ordered as strings, which is the
    order used here. *)
Definition notAfter (a b : string) : Prop := String.le a b.

(** [s] is the most recent snapshot of instance [i] in [data]. *)
Definition latestSnapshot (data : list Snapshot.t) (i : Z) (s : Snapshot.t) : Prop :=
  s ∈ data ∧ Snapshot.instance s = i ∧
  ∀ s', s' ∈ data → Snapshot.instance s' = i →
        notAfter (Snapshot.captured_at s') (Snapshot.captured_at s).

(** [s] is the most recently checked setup state of instance [i] in [data]. *)
Definition latestSetupState (data : list SetupState.t) (i : Z) (s : SetupState.t)
  : Prop :=
  s ∈ data ∧ SetupState.instance s = i ∧
  ∀ s', s' ∈ data → SetupState.instance s' = i →
        notAfter (SetupState.last_checked_at s') (SetupState.last_checked_at s).

(** Within each instance the list runs from newest to oldest. *)
Definition newestFirst {A : Type} (instance : A → Z) (time : A → string)
    (data : list A) : Prop :=
  ∀ (j k : nat) (x y : A),
    (j < k)%nat → data !! j = Some x → data !! k = Some y →
    instance x = instance y → notAfter (time y) (time x).

(** The first entry of instance [i] in list order. *)
Definition firstOf {A : Type} (instance : A → Z) (i : Z) (data : list A) : option A :=
  head (filter (λ x, instance x = i) data).

(** ** The Setup Checker *)

(** What the checker finds at the far end of a connection. *)
Record Server : Type := {
  server_version_num : Z;
  shared_preload_libraries : list string;
  extensions : list string;
  settings : list (string * string)
}.

Inductive connection : Type :=
| Unreachable
| Denied
| Connected (server : Server).

Definition listed (x : string) (l : list string) : bool :=
  existsb (String.eqb x) l.

(** The result when no probe could run: both flags are down. *)
Definition unprobed (status : string) (connected : bool) : SetupInfo.t :=
  {| SetupInfo.status := status;
     SetupInfo.ready := false;
     SetupInfo.pg_version_num := 0;
     SetupInfo.preload_ok := false;
     SetupInfo.ext_created := false;
     SetupInfo.checks :=
       [("connection", CheckBool connected);
        ("server_version_num", CheckNull);
        ("shared_preload_libraries", CheckNull);
        ("pg_extension", CheckNull)];
     SetupInfo.params := [] |}.

(** Modelled from the spec: the Setup Checker behind
    [POST /instances/{id}/check_setup/] belongs to the backend, of which the
    sources hold only the caller ([checkSetup]) and the [SetupInfo]
    declaration.  Following section 4.1: a failed connection is reported as
    [CONNECTION_FAILED] with no further probe run; otherwise the version is
    read, [pg_stat_statements] is looked up in [shared_preload_libraries]
    and among the created extensions, and the extension's [track] and [max]
    parameters are returned verbatim; [ready = preload_ok AND ext_created],
    and with both flags down the status is [PRELOAD_MISSING].  The keys of
    [checks] are this model's; a probe that did not run is [null]. *)
Definition check_setup (c : connection) : SetupInfo.t :=
  match c with
  | Connected server =>
      let preload := listed "pg_stat_statements" (shared_preload_libraries server) in
      let created := listed "pg_stat_statements" (extensions server) in
      {| SetupInfo.status :=
           if preload && created then "READY"
           else if negb preload then "PRELOAD_MISSING"
           else "EXTENSION_MISSING";
         SetupInfo.ready := preload && created;
         SetupInfo.pg_version_num := server_version_num server;
         SetupInfo.preload_ok := preload;
         SetupInfo.ext_created := created;
         SetupInfo.checks :=
           [("connection", CheckBool true);
            ("server_version_num", CheckNumber (inject_Z (server_version_num server)));
            ("shared_preload_libraries", CheckBool preload);
            ("pg_extension", CheckBool created)];
         SetupInfo.params :=
           filter (λ kv, fst kv = "pg_stat_statements.track"
                         ∨ fst kv = "pg_stat_statements.max") (settings server) |}
  | Unreachable => unprobed "CONNECTION_FAILED" false
  | Denied => unprobed "PERMISSION_DENIED" true
  end.

(** ** Sample data *)

Definition snapshotJan1 : Snapshot.t :=
  {| Snapshot.id := 1; Snapshot.instance := 1;
     Snapshot.captured_at := "2024-01-01T00:00:00Z"; Snapshot.query_stats := [] |}.

Definition snapshotJan2 : Snapshot.t :=
  {| Snapshot.id := 2; Snapshot.instance := 1;
     Snapshot.captured_at := "2024-01-02T00:00:00Z"; Snapshot.query_stats := [] |}.

Definition setupStateJan1 : SetupState.t :=
  {| SetupState.id := 1; SetupState.instance := 1;
     SetupState.pg_version_num := Value 150003;
     SetupState.preload_ok := false; SetupState.ext_created := false;
     SetupState.ready := false;
     SetupState.last_checked_at := "2024-01-01T00:00:00Z" |}.

Definition setupStateJan2 : SetupState.t :=
  {| SetupState.id := 2; SetupState.instance := 1;
     SetupState.pg_version_num := Value 150003;
     SetupState.preload_ok := true; SetupState.ext_created := true;
     SetupState.ready := true;
     SetupState.last_checked_at := "2024-01-02T00:00:00Z" |}.

Definition sampleStat (n : Z) : QueryStat.t :=
  {| QueryStat.queryid := "q"; QueryStat.query_norm := "SELECT $1";
     QueryStat.calls := inject_Z n; QueryStat.total_time_ms := inject_Z n;
     QueryStat.mean_time_ms := 1; QueryStat.rows := inject_Z n;
     QueryStat.shared_blks_read := 0; QueryStat.shared_blks_hit := 0;
     QueryStat.temp_blks_written := 0; QueryStat.wal_bytes := 0 |}.

Definition snapshotTenRows : Snapshot.t :=
  {| Snapshot.id := 3; Snapshot.instance := 1;
     Snapshot.captured_at := "2024-01-03T00:00:00Z";
     Snapshot.query_stats := map sampleStat [10; 9; 8; 7; 6; 5; 4; 3; 2; 1] |}.

Definition notFoundBody : option json :=
  Some (JObj [("detail", JStr "Not found.")]).

Definition sampleRec (id instance : Z) (score : Q) : Recommendation.t :=
  {| Recommendation.id := id; Recommendation.instance := instance;
     Recommendation.type := "missing_index"; Recommendation.title := "";
     Recommendation.details := ""; Recommendation.sql := "";
     Recommendation.confidence := "high"; Recommendation.score := score;
     Recommendation.status := "pending"; Recommendation.created_at := "" |}.

(** The step of [bucketRecommendations]. *)
Definition pushRecommendation (next : gmap Z (list Recommendation.t))
    (rec : Recommendation.t) : gmap Z (list Recommendation.t) :=
  let next' :=
    match next !! Recommendation.instance rec with
    | None => <[Recommendation.instance rec := []]> next
    | Some _ => next
    end in
  <[Recommendation.instance rec :=
      (default [] (next' !! Recommendation.instance rec) ++ [rec])%list]> next'.

(** Non-increasing score, left to right. *)
Definition scoreDescending (a b : Recommendation.t) : Prop :=
  (Recommendation.score b <= Recommendation.score a)%Q.

(** The step shared by [indexSetupStates] and [indexSnapshots]. *)
Definition keepFirst {A : Type} (key : A → Z) (next : gmap Z A) (x : A) : gmap Z A :=
  match next !! key x with
  | None => <[key x := x]> next
  | Some _ => next
  end.

(** ** The rest of the component *)

(** [pgServiceName]: the unit name of the restart example.  The template
    literal writes the major version in decimal. *)
Definition pgServiceName (major : optional Z) : string :=
  match major with
  | Value m =>
      if falsy (Value m) then "postgresql"
      else if 10 <=? m then "postgresql@" +:+ pretty m else "postgresql"
  | _ => "postgresql"
  end.

Definition serviceName (st : AppState) : string := pgServiceName (selectedPgMajor st).

(** [loadInstances] (lines 149-161): the first instance of a non-empty
    answer becomes the selection when nothing was selected.  The test reads
    the [selectedId] of the render that created the function, passed here
    as [seen]; the effect that calls it runs once, from the first render,
    where it is [null]. *)
Definition loadInstances (seen : option Z) (res : response (list Instance.t))
    (st : AppState) : AppState :=
  match res with
  | Ok data =>
      let st' := setInstances data st in
      match data, seen with
      | first :: _, None => setSelectedId (Some (Instance.id first)) st'
      | _, _ => st'
      end
  | NotOk _ =>
      setError (Some (caught (Some "Failed to load instances.")
                             "Unable to load instances.")) st
  | Rejected err => setError (Some (caught err "Unable to load instances.")) st
  end.

(** One of the four loads [initialize] starts, with the response it gets. *)
Inductive load : Type :=
| LoadInstances (res : response (list Instance.t))
| LoadSetupStates (res : response (list SetupState.t))
| LoadSnapshots (res : response (list Snapshot.t))
| LoadRecommendations (res : response (list Recommendation.t)).

Definition runLoad (seen : option Z) (l : load) (st : AppState) : AppState :=
  match l with
  | LoadInstances res => loadInstances seen res st
  | LoadSetupStates res => loadSetupStates res st
  | LoadSnapshots res => loadSnapshots res st
  | LoadRecommendations res => loadRecommendations res st
  end.

(** Loads writing their result one after the other, in the order in which
    they complete. *)
Definition settle (seen : option Z) (completed : list load) (st : AppState)
  : AppState :=
  fold_left (λ st l, runLoad seen l st) completed st.

(** [initialize] (lines 145-147): [Promise.all] over the four loads, here
    completing in the order they are listed. *)
Definition initialize (seen : option Z)
    (resInstances : response (list Instance.t))
    (resStates : response (list SetupState.t))
    (resSnapshots : response (list Snapshot.t))
    (resRecommendations : response (list Recommendation.t))
    (st : AppState) : AppState :=
  settle seen [LoadInstances resInstances; LoadSetupStates resStates;
          LoadSnapshots resSnapshots; LoadRecommendations resRecommendations] st.

Definition succeeded {A : Type} (res : response A) : bool :=
  match res with
  | Ok _ => true
  | _ => false
  end.

(** [instances.find((instance) => instance.id === selectedId) ?? null] *)
Definition selectedInstance (st : AppState) : option Instance.t :=
  match selectedId st with
  | Some i => List.find (λ instance, Instance.id instance =? i) (instances st)
  | None => None
  end.

(** The readiness panel (lines 476-506, 568). *)

(** [selectedSetup?.ready || selectedSetupState?.ready]: the badge is
    highlighted. *)
Definition readyHighlight (st : AppState) : bool :=
  match selectedSetup st with Some info => SetupInfo.ready info | None => false end
  || match selectedSetupState st with Some state => SetupState.ready state | None => false end.

(** [selectedSetup?.status ?? (selectedSetupState?.ready ? 'READY' : 'CHECK NEEDED')] *)
Definition statusLabel (st : AppState) : string :=
  match selectedSetup st with
  | Some info => SetupInfo.status info
  | None =>
      if match selectedSetupState st with
         | Some state => SetupState.ready state
         | None => false
         end
      then "READY" else "CHECK NEEDED"
  end.

(** [selectedSetup && !selectedSetup.ready]: the setup guide is shown. *)
Definition showGuide (st : AppState) : bool :=
  match selectedSetup st with
  | Some info => negb (SetupInfo.ready info)
  | None => false
  end.

(** [disabled] of the reset button (line 545). *)
Definition resetDisabled (st : AppState) : bool :=
  bool_decide (busyAction st = Some "reset")
  || bool_decide (String.length (resetPassword st) = 0%nat).

(** [s.replace(pattern, replacement)] with one-character strings: the first
    occurrence only. *)
Fixpoint replaceFirst (pattern replacement : ascii) (s : string) : string :=
  match s with
  | EmptyString => EmptyString
  | String c rest =>
      if Ascii.eqb c pattern then String replacement rest
      else String c (replaceFirst pattern replacement rest)
  end.

(** [rec.type.replace('_', ' ')], the badge of a recommendation card. *)
Definition typeLabel (rec : Recommendation.t) : string :=
  replaceFirst "_"%char " "%char (Recommendation.type rec).

(** The character occurs in the string. *)
Fixpoint occurs (c : ascii) (s : string) : bool :=
  match s with
  | EmptyString => false
  | String c' rest => Ascii.eqb c' c || occurs c rest
  end.

(** The recommendations of one score, in list order. *)
Definition withScore (q : Q) (l : list Recommendation.t) : list Recommendation.t :=
  filter (λ r, Qeq_bool (Recommendation.score r) q = true) l.

(** Two states that differ at most in the error they show. *)
Definition sameExceptError (st st' : AppState) : Prop :=
  instances st = instances st' ∧ setupStates st = setupStates st' ∧
  setupInfo st = setupInfo st' ∧ snapshots st = snapshots st' ∧
  recommendations st = recommendations st' ∧ selectedId st = selectedId st' ∧
  form st = form st' ∧ resetPassword st = resetPassword st' ∧
  busyAction st = busyAction st'.

Definition sampleInstance (id : Z) (name : string) : Instance.t :=
  {| Instance.id := id; Instance.name := name; Instance.host := "db.internal";
     Instance.port := 5432; Instance.dbname := "app_db"; Instance.user := "postgres";
     Instance.ssl_mode := "prefer"; Instance.created_at := "2024-01-01T00:00:00Z" |}.

Definition sampleInfo : SetupInfo.t :=
  {| SetupInfo.status := "PRELOAD_MISSING"; SetupInfo.ready := false;
     SetupInfo.pg_version_num := 150003; SetupInfo.preload_ok := false;
     SetupInfo.ext_created := true; SetupInfo.checks := []; SetupInfo.params := [] |}.

Definition loadSucceeded (l : load) : bool :=
  match l with
  | LoadInstances res => succeeded res
  | LoadSetupStates res => succeeded res
  | LoadSnapshots res => succeeded res
  | LoadRecommendations res => succeeded res
  end.

(** A load spelled out as the writes it makes: its own cell (for the
    instance list, the selection as well), then the error. *)
Definition writeLoad (seen : option Z) (l : load) (st : AppState) : AppState :=
  match l with
  | LoadInstances res =>
      setError
        (match res with
         | Ok _ => error st
         | NotOk _ => Some (Text "Failed to load instances.")
         | Rejected err => Some (caught err "Unable to load instances.")
         end)
        (setSelectedId
           (match res, seen with
            | Ok (first :: _), None => Some (Instance.id first)
            | _, _ => selectedId st
            end)
           (setInstances (match res with Ok data => data | _ => instances st end) st))
  | LoadSetupStates res =>
      setError
        (match res with
         | Ok _ => error st
         | NotOk _ => Some (Text "Failed to load setup states.")
         | Rejected err => Some (caught err "Unable to load setup states.")
         end)
        (setSetupStates
           (match res with Ok data => indexSetupStates data | _ => setupStates st end)
           st)
  | LoadSnapshots res =>
      setError
        (match res with
         | Ok _ => error st
         | NotOk _ => Some (Text "Failed to load snapshots.")
         | Rejected err => Some (caught err "Unable to load snapshots.")
         end)
        (setSnapshots
           (match res with Ok data => indexSnapshots data | _ => snapshots st end) st)
  | LoadRecommendations res =>
      setError
        (match res with
         | Ok _ => error st
         | NotOk _ => Some (Text "Failed to load recommendations.")
         | Rejected err => Some (caught err "Unable to load recommendations.")
         end)
        (setRecommendations
           (match res with
            | Ok data => indexRecommendations data
            | _ => recommendations st
            end) st)
  end.

(** * Properties *)

(** ** Version helpers *)

Lemma pgMajorVersion_value (v : Z) :
  pgMajorVersion (Value v) = if v =? 0 then Null else Value (v / 10000).
Proof. reflexivity. Qed.

(** C4. For a server version number (a nonzero integer such as [150003]),
    the major version computed by [pgMajorVersion] is the number
    integer-divided by 10000. *)
Theorem pgMajorVersion_div (v : Z) :
  v ≠ 0 → pgMajorVersion (Value v) = Value (v / 10000).
Proof.
  intros Hv. rewrite pgMajorVersion_value.
  destruct (Z.eqb_spec v 0) as [->|_]; [contradiction | reflexivity].
Qed.

Lemma pgMajorVersion_div_witness :
  150003 ≠ 0 ∧ pgMajorVersion (Value 150003) = Value 15.
Proof. split; [lia | apply (pgMajorVersion_div 150003); lia]. Defined.

(** C8. [pgConfigName] answers "postgresql.conf" for every argument, so the
    file name the setup guide shows is the same in every state. *)
Theorem pgConfigName_constant :
  (∀ major : optional Z, pgConfigName major = "postgresql.conf") ∧
  (∀ st : AppState, configName st = "postgresql.conf").
Proof.
  assert (H : ∀ major : optional Z, pgConfigName major = "postgresql.conf").
  { intros [| |m]; simpl; try reflexivity.
    destruct (m =? 0); [reflexivity|]. destruct (12 <=? m); reflexivity. }
  split; [exact H | intros st; apply H].
Qed.

(** C9. [pgMajorVersion] is [null] on [0], [null] and [undefined]; its
    result is a number exactly when the argument is a nonzero number, and
    then it is never [undefined]. *)
Theorem pgMajorVersion_null_cases :
  pgMajorVersion (Value 0) = Null ∧
  pgMajorVersion Null = Null ∧
  pgMajorVersion Undefined = Null ∧
  (∀ x : optional Z,
     (∃ m, pgMajorVersion x = Value m) ↔ (∃ v, x = Value v ∧ v ≠ 0)) ∧
  (∀ x : optional Z, pgMajorVersion x ≠ Undefined).
Proof.
  repeat split; try reflexivity.
  - intros [m Hm]. destruct x as [| |v]; try discriminate.
    exists v. split; [reflexivity|]. intros ->. discriminate.
  - intros (v & -> & Hv). exists (v / 10000). rewrite pgMajorVersion_value.
    by destruct (Z.eqb_spec v 0).
  - intros x. destruct x as [| |v]; try discriminate.
    rewrite pgMajorVersion_value. destruct (v =? 0); discriminate.
Qed.

(** ** Formatters *)

(** C10. [formatNumber] and [formatMs] are defined on every optional number:
    [null] and [undefined] give the placeholder dash (which is not the text
    "NaN"), a number gives the runtime's rendering, and for [formatMs] that
    rendering is one-decimal [toFixed] followed by " ms". *)
Theorem formatters_total (number : Type) (numberFormat : number → string)
    (toFixed : number → nat → string) :
  formatNumber numberFormat Null = "—" ∧
  formatNumber numberFormat Undefined = "—" ∧
  formatMs toFixed Null = "—" ∧
  formatMs toFixed Undefined = "—" ∧
  "—" ≠ "NaN" ∧
  (∀ v : number, formatNumber numberFormat (Value v) = numberFormat v) ∧
  (∀ v : number, formatMs toFixed (Value v) = toFixed v 1%nat +:+ " ms").
Proof. repeat split; discriminate. Qed.

(** ** First-wins indexing *)

Section FirstWins.
Context {A : Type} (key : A → Z).

Lemma firstOf_cons (i : Z) (x : A) (data : list A) :
  firstOf key i (x :: data) =
  if decide (key x = i) then Some x else firstOf key i data.
Proof.
  unfold firstOf. rewrite filter_cons. by destruct (decide (key x = i)).
Qed.

Lemma keepFirst_lookup (next : gmap Z A) (x : A) (i : Z) :
  keepFirst key next x !! i =
  match next !! i with
  | Some y => Some y
  | None => if decide (key x = i) then Some x else None
  end.
Proof.
  unfold keepFirst. destruct (next !! key x) as [y|] eqn:Hx.
  - destruct (next !! i) as [z|] eqn:Hi; [done|].
    destruct (decide (key x = i)) as [<-|]; [congruence | done].
  - rewrite lookup_insert.
    destruct (decide (key x = i)) as [<-|]; [by rewrite Hx|].
    by destruct (next !! i).
Qed.

Lemma fold_keepFirst_lookup (data : list A) (next : gmap Z A) (i : Z) :
  fold_left (keepFirst key) data next !! i =
  match next !! i with
  | Some y => Some y
  | None => firstOf key i data
  end.
Proof.
  revert next. induction data as [|x data IH]; intros next; simpl.
  - by destruct (next !! i).
  - rewrite IH, keepFirst_lookup, firstOf_cons.
    destruct (next !! i); [done|]. by destruct (decide (key x = i)).
Qed.

(** Where the first entry of an instance sits in the list. *)
Lemma firstOf_Some (i : Z) (data : list A) (x : A) :
  firstOf key i data = Some x →
  key x = i ∧ ∃ j : nat, data !! j = Some x ∧
    ∀ (k : nat) (y : A), data !! k = Some y → key y = i → (j ≤ k)%nat.
Proof.
  induction data as [|z data IH]; [discriminate|].
  rewrite firstOf_cons. destruct (decide (key z = i)) as [Hz|Hz].
  - intros [= ->]. split; [done|]. exists 0%nat. split; [done|]. intros; lia.
  - intros Hx. destruct (IH Hx) as (Hk & j & Hj & Hmin). split; [done|].
    exists (S j). split; [done|]. intros [|k] y Hy Hyi; simpl in Hy.
    + congruence.
    + specialize (Hmin k y Hy Hyi). lia.
Qed.

Lemma firstOf_None (i : Z) (data : list A) (x : A) :
  firstOf key i data = None → x ∈ data → key x ≠ i.
Proof.
  unfold firstOf. intros Hnone Hx Hk.
  assert (Hin : x ∈ filter (λ y, key y = i) data) by (apply list_elem_of_filter; done).
  destruct (filter (λ y, key y = i) data); [by apply elem_of_nil in Hin | discriminate].
Qed.

(** With each instance listed newest first, its first entry is its latest. *)
Lemma firstOf_latest (time : A → string) (i : Z) (data : list A) (x : A) :
  newestFirst key time data → firstOf key i data = Some x →
  x ∈ data ∧ key x = i ∧
  ∀ y, y ∈ data → key y = i → notAfter (time y) (time x).
Proof.
  intros Hsorted Hx. destruct (firstOf_Some _ _ _ Hx) as (Hk & j & Hj & Hmin).
  split; [by eapply list_elem_of_lookup_2|]. split; [done|].
  intros y Hy Hyi. apply list_elem_of_lookup in Hy as [k Hk'].
  specialize (Hmin k y Hk' Hyi).
  destruct (decide (j = k)) as [->|Hne].
  - assert (y = x) as -> by congruence. unfold notAfter. reflexivity.
  - apply (Hsorted j k x y); [lia | done | done | congruence].
Qed.
End FirstWins.

Lemma indexSnapshots_lookup (data : list Snapshot.t) (i : Z) :
  indexSnapshots data !! i = firstOf Snapshot.instance i data.
Proof.
  change (indexSnapshots data)
    with (fold_left (keepFirst Snapshot.instance) data ∅).
  by rewrite fold_keepFirst_lookup, lookup_empty.
Qed.

Lemma indexSetupStates_lookup (data : list SetupState.t) (i : Z) :
  indexSetupStates data !! i = firstOf SetupState.instance i data.
Proof.
  change (indexSetupStates data)
    with (fold_left (keepFirst SetupState.instance) data ∅).
  by rewrite fold_keepFirst_lookup, lookup_empty.
Qed.

(** A list of two entries of one instance, newer one first, is newest
    first as soon as the second is not after the first. *)
Lemma newestFirst_pair {A : Type} (key : A → Z) (time : A → string) (x y : A) :
  notAfter (time y) (time x) → newestFirst key time [x; y].
Proof.
  intros Hxy j k a b Hjk Hj Hk _.
  destruct j as [|[|j]], k as [|[|k]]; simpl in Hj, Hk; try discriminate; try lia.
  congruence.
Qed.

(** A list with one entry per instance is newest first for free. *)
Lemma newestFirst_one_each {A : Type} (key : A → Z) (time : A → string)
    (data : list A) :
  NoDup (key <$> data) → newestFirst key time data.
Proof.
  intros Hnodup j k x y Hjk Hj Hk Heq.
  assert (j = k); [|lia].
  apply (NoDup_lookup (key <$> data) j k (key x)); [done| |];
    rewrite list_lookup_fmap.
  - by rewrite Hj.
  - by rewrite Hk, Heq.
Qed.

(** ** Snapshots *)

(** C2, as stated, fails: listed oldest first, the two snapshots of
    instance 1 leave the older one in the cell although the newer one is in
    the list. *)
Lemma loadSnapshots_keeps_older :
  snapshots (loadSnapshots (Ok [snapshotJan1; snapshotJan2]) initialState) !! 1
    = Some snapshotJan1 ∧
  ¬ latestSnapshot [snapshotJan1; snapshotJan2] 1 snapshotJan1.
Proof.
  split; [by vm_compute|].
  intros (_ & _ & Hlatest).
  specialize (Hlatest snapshotJan2). unfold notAfter in Hlatest.
  apply Hlatest; [set_solver | reflexivity].
Qed.

(** C2, amended. The snapshot kept for an instance is the first one of that
    instance in the order of the returned list; it is the most recent by
    [captured_at] whenever the list gives each instance's snapshots newest
    first. *)
Theorem loadSnapshots_first (data : list Snapshot.t) (st : AppState) (i : Z) :
  snapshots (loadSnapshots (Ok data) st) !! i = firstOf Snapshot.instance i data ∧
  (newestFirst Snapshot.instance Snapshot.captured_at data →
   ∀ s, snapshots (loadSnapshots (Ok data) st) !! i = Some s →
        latestSnapshot data i s).
Proof.
  simpl. rewrite indexSnapshots_lookup. split; [reflexivity|].
  intros Hsorted s Hs. by apply (firstOf_latest _ Snapshot.captured_at).
Qed.

Lemma loadSnapshots_first_witness :
  newestFirst Snapshot.instance Snapshot.captured_at [snapshotJan2; snapshotJan1] ∧
  latestSnapshot [snapshotJan2; snapshotJan1] 1 snapshotJan2.
Proof.
  assert (Hsorted : newestFirst Snapshot.instance Snapshot.captured_at
                      [snapshotJan2; snapshotJan1]).
  { apply newestFirst_pair. unfold notAfter. vm_compute. exact I. }
  split; [exact Hsorted|].
  apply (proj2 (loadSnapshots_first [snapshotJan2; snapshotJan1] initialState 1) Hsorted).
  vm_compute. reflexivity.
Defined.

(** ** Setup states *)

(** C3, as stated, fails on its second half: listed oldest first, the
    earlier check of instance 1 is the one retained. *)
Lemma loadSetupStates_keeps_older :
  setupStates (loadSetupStates (Ok [setupStateJan1; setupStateJan2]) initialState) !! 1
    = Some setupStateJan1 ∧
  ¬ latestSetupState [setupStateJan1; setupStateJan2] 1 setupStateJan1.
Proof.
  split; [by vm_compute|].
  intros (_ & _ & Hlatest).
  specialize (Hlatest setupStateJan2). unfold notAfter in Hlatest.
  apply Hlatest; [set_solver | reflexivity].
Qed.

(** C3, amended. At most one setup state is retained per instance id, and
    the retained one is the first of that instance in the order of the
    returned list; it is the latest by [last_checked_at] whenever the list
    gives each instance's states newest first. *)
Theorem loadSetupStates_first (data : list SetupState.t) (st : AppState) :
  (∀ i j s s',
     setupStates (loadSetupStates (Ok data) st) !! i = Some s →
     setupStates (loadSetupStates (Ok data) st) !! j = Some s' →
     SetupState.instance s = SetupState.instance s' → i = j ∧ s = s') ∧
  (∀ i, setupStates (loadSetupStates (Ok data) st) !! i
        = firstOf SetupState.instance i data) ∧
  (newestFirst SetupState.instance SetupState.last_checked_at data →
   ∀ i s, setupStates (loadSetupStates (Ok data) st) !! i = Some s →
          latestSetupState data i s).
Proof.
  simpl. split; [|split].
  - intros i j s s'. rewrite !indexSetupStates_lookup. intros Hs Hs' Heq.
    destruct (firstOf_Some _ _ _ _ Hs) as [Hi _].
    destruct (firstOf_Some _ _ _ _ Hs') as [Hj _].
    assert (i = j) as -> by congruence. split; congruence.
  - intros i. apply indexSetupStates_lookup.
  - intros Hsorted i s. rewrite indexSetupStates_lookup. intros Hs.
    by apply (firstOf_latest _ SetupState.last_checked_at).
Qed.

Lemma loadSetupStates_first_witness :
  newestFirst SetupState.instance SetupState.last_checked_at
    [setupStateJan2; setupStateJan1] ∧
  latestSetupState [setupStateJan2; setupStateJan1] 1 setupStateJan2.
Proof.
  assert (Hsorted : newestFirst SetupState.instance SetupState.last_checked_at
                      [setupStateJan2; setupStateJan1]).
  { apply newestFirst_pair. unfold notAfter. vm_compute. exact I. }
  split; [exact Hsorted|].
  apply (proj2 (proj2 (loadSetupStates_first [setupStateJan2; setupStateJan1]
                         initialState)) Hsorted).
  vm_compute. reflexivity.
Defined.

Lemma indexSnapshots_elem (data : list Snapshot.t) (i : Z) (s : Snapshot.t) :
  indexSnapshots data !! i = Some s → s ∈ data ∧ Snapshot.instance s = i.
Proof.
  rewrite indexSnapshots_lookup. intros Hs.
  destruct (firstOf_Some _ _ _ _ Hs) as (Hi & j & Hj & _).
  split; [by eapply list_elem_of_lookup_2 | done].
Qed.

Lemma selected_lookup {V : Type} (cell : gmap Z V) (st : AppState) (v : V) :
  selected cell st = Some v →
  ∃ i, selectedId st = Some i ∧ i ≠ 0 ∧ cell !! i = Some v.
Proof.
  unfold selected. destruct (selectedId st) as [i|]; [|discriminate].
  destruct (Z.eqb_spec i 0); [discriminate|]. eauto.
Qed.

(** C6. For the snapshot on display after a load, the table shows
    [query_stats.slice(0, 8)]: at most eight rows, and they are the leading
    rows of the snapshot's sequence; the snapshot held in the state is one
    of the fetched snapshots, with all of its rows. *)
Theorem surfacedRows_first_eight (data : list Snapshot.t) (st : AppState)
    (s : Snapshot.t) :
  selectedSnapshot (loadSnapshots (Ok data) st) = Some s →
  s ∈ data ∧
  surfacedRows s = take 8 (Snapshot.query_stats s) ∧
  (length (surfacedRows s) ≤ 8)%nat ∧
  (∃ rest, Snapshot.query_stats s = (surfacedRows s ++ rest)%list) ∧
  (length (surfacedRows s) = Nat.min 8 (length (Snapshot.query_stats s))).
Proof.
  intros Hsel. apply selected_lookup in Hsel as (i & _ & _ & Hs).
  simpl in Hs. apply indexSnapshots_elem in Hs as [Hin _].
  unfold surfacedRows. repeat split.
  - exact Hin.
  - rewrite length_take. lia.
  - exists (drop 8 (Snapshot.query_stats s)). by rewrite take_drop.
  - apply length_take.
Qed.

Lemma surfacedRows_first_eight_witness :
  selectedSnapshot (loadSnapshots (Ok [snapshotTenRows])
                      (setSelectedId (Some 1) initialState)) = Some snapshotTenRows ∧
  length (surfacedRows snapshotTenRows) = 8%nat ∧
  length (Snapshot.query_stats snapshotTenRows) = 10%nat.
Proof.
  assert (Hsel : selectedSnapshot (loadSnapshots (Ok [snapshotTenRows])
                   (setSelectedId (Some 1) initialState)) = Some snapshotTenRows)
    by (vm_compute; reflexivity).
  split; [exact Hsel|].
  destruct (surfacedRows_first_eight _ _ _ Hsel) as (_ & _ & _ & _ & Hlen).
  split; [exact Hlen | reflexivity].
Defined.

(** ** Error messages *)

Lemma failureMessage_string (fallback : string) (body : option json) (s : string) :
  body ≫= detailField = Some (JStr s) → failureMessage fallback body = Text s.
Proof. unfold failureMessage. by intros ->. Qed.

Lemma failureMessage_absent (fallback : string) (body : option json) :
  body ≫= detailField = None → failureMessage fallback body = Text fallback.
Proof. unfold failureMessage. by intros ->. Qed.

(** C7. When the create, check_setup, collect or patch request comes back
    non-2xx, the error the client shows is the body's [detail] string if
    the body has that member, and otherwise (no parsable body, or no such
    member) the fallback sentence of the operation. *)
Theorem failure_detail_or_fallback (body : option json) (st : AppState)
    (instanceId : Z) (resCheck : response SetupInfo.t)
    (resStates : response (list SetupState.t))
    (resSnapshots : response (list Snapshot.t))
    (resRecommendations : response (list Recommendation.t)) :
  (∀ s : string, body ≫= detailField = Some (JStr s) →
     error (handleSubmit (NotOk body) resCheck resStates st) = Some (Text s) ∧
     error (checkSetup instanceId (NotOk body) resStates st) = Some (Text s) ∧
     error (collectSnapshot instanceId (NotOk body) resSnapshots resRecommendations st)
       = Some (Text s) ∧
     error (resetCredentials instanceId (NotOk body) resCheck resStates st)
       = Some (Text s)) ∧
  (body ≫= detailField = None →
     error (handleSubmit (NotOk body) resCheck resStates st)
       = Some (Text "Unable to save connection.") ∧
     error (checkSetup instanceId (NotOk body) resStates st)
       = Some (Text "Check failed.") ∧
     error (collectSnapshot instanceId (NotOk body) resSnapshots resRecommendations st)
       = Some (Text "Snapshot failed.") ∧
     error (resetCredentials instanceId (NotOk body) resCheck resStates st)
       = Some (Text "Unable to reset credentials.")).
Proof.
  split.
  - intros s Hs. simpl. by rewrite !(failureMessage_string _ _ _ Hs).
  - intros Hnone. simpl. by rewrite !(failureMessage_absent _ _ Hnone).
Qed.

Lemma failure_detail_or_fallback_witness :
  (notFoundBody ≫= detailField = Some (JStr "Not found.") ∧
   error (checkSetup 1 (NotOk notFoundBody) (Ok []) initialState)
     = Some (Text "Not found.")) ∧
  (None ≫= detailField = None ∧
   error (collectSnapshot 1 (NotOk None) (Ok []) (Ok []) initialState)
     = Some (Text "Snapshot failed.")).
Proof.
  split; (split; [reflexivity|]).
  - apply (proj1 (failure_detail_or_fallback notFoundBody initialState 1
                    (Ok (check_setup Unreachable)) (Ok []) (Ok []) (Ok []))
                 "Not found." eq_refl).
  - apply (proj2 (failure_detail_or_fallback None initialState 1
                    (Ok (check_setup Unreachable)) (Ok []) (Ok []) (Ok []))
                 eq_refl).
Defined.

(** ** Setup checker *)

(** C1. Every result of [check_setup] has
    [ready = preload_ok AND ext_created], and [checkSetup] stores the result
    it receives unchanged, so the same holds of what the client keeps for
    the instance. *)
Theorem check_setup_ready (c : connection) (instanceId : Z)
    (resStates : response (list SetupState.t)) (st : AppState) :
  SetupInfo.ready (check_setup c)
    = SetupInfo.preload_ok (check_setup c) && SetupInfo.ext_created (check_setup c) ∧
  setupInfo (checkSetup instanceId (Ok (check_setup c)) resStates st) !! instanceId
    = Some (check_setup c).
Proof.
  split.
  - by destruct c.
  - destruct resStates; simpl; apply lookup_insert_eq.
Qed.

(** The scenario of the specification: neither flag up. *)
Lemma check_setup_nothing_installed (v : Z) (params : list (string * string)) :
  let info := check_setup (Connected {| server_version_num := v;
                                        shared_preload_libraries := [];
                                        extensions := [];
                                        settings := params |}) in
  SetupInfo.status info = "PRELOAD_MISSING" ∧ SetupInfo.ready info = false.
Proof. by split. Qed.

(** ** Sorting *)

Section ArraySortFacts.
Context {A : Type} (compareFn : A → A → Q).

Lemma insertSorted_Permutation (x : A) (l : list A) :
  insertSorted compareFn x l ≡ₚ x :: l.
Proof.
  induction l as [|y l IH]; simpl; [done|].
  destruct (Qle_bool (compareFn x y) 0); [done|].
  rewrite IH. apply Permutation_swap.
Qed.

Lemma sort_Permutation (l : list A) : sort compareFn l ≡ₚ l.
Proof.
  induction l as [|x l IH]; simpl; [done|].
  by rewrite insertSorted_Permutation, IH.
Qed.

(** The comparator orders by a relation [R]: not asking for [a] after [b]
    means [R a b], asking for it means [R b a]. *)
Context (R : A → A → Prop).
Hypothesis compare_le : ∀ a b, Qle_bool (compareFn a b) 0 = true → R a b.
Hypothesis compare_gt : ∀ a b, Qle_bool (compareFn a b) 0 = false → R b a.

Lemma insertSorted_HdRel (x y : A) (l : list A) :
  R y x → HdRel R y l → HdRel R y (insertSorted compareFn x l).
Proof.
  intros Hyx Hl. destruct l as [|z l]; simpl; [by constructor|].
  destruct (Qle_bool (compareFn x z) 0); constructor; [done|].
  by inversion Hl.
Qed.

Lemma insertSorted_Sorted (x : A) (l : list A) :
  Sorted R l → Sorted R (insertSorted compareFn x l).
Proof.
  induction 1 as [|y l Hl IH Hhd]; simpl; [by repeat constructor|].
  destruct (Qle_bool (compareFn x y) 0) eqn:Hcmp.
  - constructor; [by constructor|]. constructor. by apply compare_le.
  - constructor; [done|]. apply insertSorted_HdRel; [|done].
    by apply compare_gt.
Qed.

Lemma sort_Sorted (l : list A) : Sorted R (sort compareFn l).
Proof.
  induction l as [|x l IH]; simpl; [constructor|].
  by apply insertSorted_Sorted.
Qed.
End ArraySortFacts.

Lemma byScoreDesc_le (a b : Recommendation.t) :
  Qle_bool (byScoreDesc a b) 0 = true → scoreDescending a b.
Proof.
  unfold byScoreDesc, scoreDescending. rewrite Qle_bool_iff. intros H. lra.
Qed.

Lemma byScoreDesc_gt (a b : Recommendation.t) :
  Qle_bool (byScoreDesc a b) 0 = false → scoreDescending b a.
Proof.
  unfold byScoreDesc, scoreDescending. intros H.
  assert (Hn : ¬ (Recommendation.score b - Recommendation.score a <= 0)%Q).
  { rewrite <- Qle_bool_iff. congruence. }
  lra.
Qed.

#[local] Instance scoreDescending_trans : Transitive scoreDescending.
Proof. intros a b c Hab Hbc. unfold scoreDescending in *. lra. Qed.

Lemma sort_byScoreDesc_sorted (l : list Recommendation.t) :
  StronglySorted scoreDescending (sort byScoreDesc l).
Proof.
  apply Sorted_StronglySorted; [apply scoreDescending_trans|].
  apply sort_Sorted; [apply byScoreDesc_le | apply byScoreDesc_gt].
Qed.

(** ** Recommendations *)

Lemma pushRecommendation_lookup (next : gmap Z (list Recommendation.t))
    (rec : Recommendation.t) (i : Z) :
  pushRecommendation next rec !! i =
  if decide (Recommendation.instance rec = i)
  then Some (default [] (next !! i) ++ [rec])%list
  else next !! i.
Proof.
  unfold pushRecommendation.
  destruct (next !! Recommendation.instance rec) as [l|] eqn:Hk;
    rewrite lookup_insert;
    destruct (decide (Recommendation.instance rec = i)) as [<-|Hne]; try done.
  - by rewrite lookup_insert_eq, Hk.
  - by rewrite lookup_insert_ne.
Qed.

Lemma fold_pushRecommendation_lookup (data : list Recommendation.t)
    (next : gmap Z (list Recommendation.t)) (i : Z) :
  fold_left pushRecommendation data next !! i =
  match filter (λ r, Recommendation.instance r = i) data with
  | [] => next !! i
  | l => Some (default [] (next !! i) ++ l)%list
  end.
Proof.
  revert next. induction data as [|x data IH]; intros next; simpl; [done|].
  rewrite IH, pushRecommendation_lookup, filter_cons.
  destruct (decide (Recommendation.instance x = i)) as [Hx|Hx]; [|done].
  destruct (filter _ data) as [|y l]; simpl; [done|].
  by rewrite <- app_assoc.
Qed.

Lemma bucketRecommendations_lookup (data : list Recommendation.t) (i : Z) :
  default [] (bucketRecommendations data !! i)
  = filter (λ r, Recommendation.instance r = i) data.
Proof.
  change (bucketRecommendations data) with (fold_left pushRecommendation data ∅).
  rewrite fold_pushRecommendation_lookup, lookup_empty.
  by destruct (filter _ data).
Qed.

Lemma indexRecommendations_lookup (data : list Recommendation.t) (i : Z) :
  default [] (indexRecommendations data !! i)
  = sort byScoreDesc (filter (λ r, Recommendation.instance r = i) data).
Proof.
  unfold indexRecommendations. rewrite lookup_fmap.
  rewrite <- bucketRecommendations_lookup.
  by destruct (bucketRecommendations data !! i).
Qed.

(** C5. After a load, the list held for an instance is a permutation of the
    recommendations of that instance in the returned list, and runs in
    non-increasing order of score. *)
Theorem loadRecommendations_sorted (data : list Recommendation.t) (st : AppState)
    (i : Z) :
  default [] (recommendations (loadRecommendations (Ok data) st) !! i)
    ≡ₚ filter (λ r, Recommendation.instance r = i) data ∧
  StronglySorted scoreDescending
    (default [] (recommendations (loadRecommendations (Ok data) st) !! i)).
Proof.
  simpl. rewrite indexRecommendations_lookup. split.
  - apply sort_Permutation.
  - apply sort_byScoreDesc_sorted.
Qed.

(** The list on display is that list, for the selected instance. *)
Lemma selectedRecommendations_lookup (st : AppState) (i : Z) :
  selectedId st = Some i → i ≠ 0 →
  selectedRecommendations st = default [] (recommendations st !! i).
Proof.
  intros Hsel Hi. unfold selectedRecommendations, selected. rewrite Hsel.
  by destruct (Z.eqb_spec i 0).
Qed.

Example loadRecommendations_example :
  map Recommendation.id
    (default []
       (recommendations
          (loadRecommendations
             (Ok [sampleRec 1 1 (1 # 2); sampleRec 2 2 (9 # 10);
                  sampleRec 3 1 (3 # 4); sampleRec 4 1 (1 # 2)]) initialState) !! 1))
  = [3; 1; 4].
Proof. by vm_compute. Qed.

(** Outside the two cases of C7: a [detail] member that is [null] also
    falls back, and one that is neither [null] nor a string is shown as the
    runtime's text for it. *)
Lemma failureMessage_null (fallback : string) (body : option json) :
  body ≫= detailField = Some JNull → failureMessage fallback body = Text fallback.
Proof. unfold failureMessage. by intros ->. Qed.

Lemma failureMessage_other (fallback : string) (body : option json) (v : json) :
  body ≫= detailField = Some v → v ≠ JNull → (∀ s, v ≠ JStr s) →
  failureMessage fallback body = Coerced v.
Proof.
  unfold failureMessage. intros -> Hnull Hstr.
  destruct v; try done. by specialize (Hstr s).
Qed.

(** * Further properties of the component *)

(** ** Service name *)

(** X1. From a server version number to the unit name of the restart
    example: versions from 100000 on (Postgres 10 and later) give
    "postgresql@" followed by the major version, every other number and a
    missing version give plain "postgresql". *)
Theorem pgServiceName_of_version :
  (∀ v : Z,
     pgServiceName (pgMajorVersion (Value v))
     = if 100000 <=? v then "postgresql@" +:+ pretty (v / 10000) else "postgresql") ∧
  pgServiceName (pgMajorVersion Null) = "postgresql" ∧
  pgServiceName (pgMajorVersion Undefined) = "postgresql".
Proof.
  split; [|by split]. intros v. rewrite pgMajorVersion_value.
  destruct (Z.eqb_spec v 0) as [->|Hv]; [reflexivity|].
  unfold pgServiceName, falsy.
  destruct (Z.eqb_spec (v / 10000) 0) as [H0|H0].
  - destruct (Z.leb_spec 100000 v) as [Hge|Hlt]; [|reflexivity].
    exfalso. assert (10 ≤ v / 10000) by (apply Z.div_le_lower_bound; lia). lia.
  - destruct (Z.leb_spec 10 (v / 10000)) as [Hm|Hm];
      destruct (Z.leb_spec 100000 v) as [Hge|Hlt]; try reflexivity; exfalso.
    + assert (v / 10000 < 10) by (apply Z.div_lt_upper_bound; lia). lia.
    + assert (10 ≤ v / 10000) by (apply Z.div_le_lower_bound; lia). lia.
Qed.

(** ** Recommendation badges *)

Lemma replaceFirst_absent (p r : ascii) (s : string) :
  occurs p s = false → replaceFirst p r s = s.
Proof.
  induction s as [|c s IH]; simpl; [done|].
  destruct (Ascii.eqb c p); simpl; [discriminate|]. intros H. by rewrite IH.
Qed.

Lemma replaceFirst_split (p r : ascii) (a b : string) :
  occurs p a = false → replaceFirst p r (a +:+ String p b) = a +:+ String r b.
Proof.
  induction a as [|c a IH]; simpl.
  - intros _. by rewrite Ascii.eqb_refl.
  - destruct (Ascii.eqb c p); simpl; [discriminate|]. intros H. by rewrite IH.
Qed.

Lemma occurs_split (p : ascii) (s : string) :
  occurs p s = true → ∃ a b, s = a +:+ String p b ∧ occurs p a = false.
Proof.
  induction s as [|c s IH]; simpl; [discriminate|].
  destruct (Ascii.eqb_spec c p) as [->|Hc]; simpl.
  - intros _. by exists "", s.
  - intros H. destruct (IH H) as (a & b & -> & Ha).
    exists (String c a), b. split; [done|]. simpl.
    destruct (Ascii.eqb_spec c p); [done|]. exact Ha.
Qed.

Lemma replaceFirst_length (p r : ascii) (s : string) :
  String.length (replaceFirst p r s) = String.length s.
Proof.
  induction s as [|c s IH]; simpl; [done|].
  destruct (Ascii.eqb c p); simpl; by rewrite ?IH.
Qed.

(** X2. The badge of a recommendation is its type with the first
    underscore, and only the first, turned into a space: a type without
    underscore is shown as it is, and otherwise everything after the first
    underscore is shown unchanged.  The badge is as long as the type. *)
Theorem typeLabel_first_underscore (rec : Recommendation.t) :
  String.length (typeLabel rec) = String.length (Recommendation.type rec) ∧
  ((occurs "_" (Recommendation.type rec) = false ∧
    typeLabel rec = Recommendation.type rec) ∨
   (∃ a b, Recommendation.type rec = a +:+ String "_" b ∧
           occurs "_" a = false ∧
           typeLabel rec = a +:+ String " " b)).
Proof.
  unfold typeLabel. split; [apply replaceFirst_length|].
  destruct (occurs "_" (Recommendation.type rec)) eqn:Hocc.
  - right. destruct (occurs_split _ _ Hocc) as (a & b & Heq & Ha).
    exists a, b. rewrite Heq. by rewrite replaceFirst_split.
  - left. by rewrite replaceFirst_absent.
Qed.

Example typeLabel_two_underscores :
  typeLabel (sampleRec 1 1 0) = "missing index" ∧
  replaceFirst "_" " " "read_replica_lag" = "read replica_lag".
Proof. by split. Qed.

(** ** Recommendations: ties and buckets *)

Lemma withScore_cons (q : Q) (x : Recommendation.t) (l : list Recommendation.t) :
  withScore q (x :: l) =
  if Qeq_bool (Recommendation.score x) q then x :: withScore q l else withScore q l.
Proof.
  unfold withScore. rewrite filter_cons.
  destruct (Qeq_bool (Recommendation.score x) q); by case_decide.
Qed.

Lemma insertSorted_withScore (q : Q) (x : Recommendation.t)
    (l : list Recommendation.t) :
  withScore q (insertSorted byScoreDesc x l) = withScore q (x :: l).
Proof.
  induction l as [|y l IH]; simpl; [done|].
  destruct (Qle_bool (byScoreDesc x y) 0) eqn:Hcmp; [done|].
  rewrite (withScore_cons q y), IH, !withScore_cons.
  destruct (Qeq_bool (Recommendation.score x) q) eqn:Hx;
    destruct (Qeq_bool (Recommendation.score y) q) eqn:Hy; try done.
  exfalso. apply Qeq_bool_iff in Hx, Hy.
  assert (Hn : ¬ (byScoreDesc x y <= 0)%Q) by (rewrite <- Qle_bool_iff; congruence).
  unfold byScoreDesc in Hn. lra.
Qed.

Lemma sort_withScore (q : Q) (l : list Recommendation.t) :
  withScore q (sort byScoreDesc l) = withScore q l.
Proof.
  induction l as [|x l IH]; simpl; [done|].
  by rewrite insertSorted_withScore, !withScore_cons, IH.
Qed.

(** X3. Sorting by score is stable on the loaded lists: within the list
    shown for an instance, recommendations of equal score stand in the
    order in which the response listed them. *)
Theorem loadRecommendations_stable (data : list Recommendation.t) (st : AppState)
    (i : Z) (q : Q) :
  withScore q (default [] (recommendations (loadRecommendations (Ok data) st) !! i))
  = withScore q (filter (λ r, Recommendation.instance r = i) data).
Proof.
  simpl. rewrite indexRecommendations_lookup. apply sort_withScore.
Qed.

Lemma bucketRecommendations_lookup_raw (data : list Recommendation.t) (i : Z) :
  bucketRecommendations data !! i =
  match filter (λ r, Recommendation.instance r = i) data with
  | [] => None
  | l => Some l
  end.
Proof.
  change (bucketRecommendations data) with (fold_left pushRecommendation data ∅).
  rewrite fold_pushRecommendation_lookup, lookup_empty.
  by destruct (filter _ data).
Qed.

(** X4. After a load an instance has a list of recommendations exactly when
    the response holds a recommendation for it; no list is ever empty, and
    what an earlier load had stored for other instances is gone. *)
Theorem loadRecommendations_keys (data : list Recommendation.t) (st : AppState)
    (i : Z) :
  (is_Some (recommendations (loadRecommendations (Ok data) st) !! i)
   ↔ ∃ r, r ∈ data ∧ Recommendation.instance r = i) ∧
  recommendations (loadRecommendations (Ok data) st) !! i ≠ Some [].
Proof.
  simpl. unfold indexRecommendations.
  rewrite lookup_fmap, bucketRecommendations_lookup_raw.
  destruct (filter (λ r, Recommendation.instance r = i) data) as [|x l] eqn:Hf; simpl.
  - split; [|done]. split; [by intros [? ?]|].
    intros (r & Hr & Hi).
    assert (Hin : r ∈ filter (λ r, Recommendation.instance r = i) data)
      by (by apply list_elem_of_filter).
    rewrite Hf in Hin. by apply elem_of_nil in Hin.
  - split.
    + split; [|by eauto]. intros _.
      assert (Hin : x ∈ filter (λ r, Recommendation.instance r = i) data)
        by (rewrite Hf; left).
      apply list_elem_of_filter in Hin as [Hi Hx]. eauto.
    + intros [= Hnil].
      pose proof (sort_Permutation byScoreDesc (x :: l)) as Hperm.
      simpl in Hperm. rewrite Hnil in Hperm.
      by apply Permutation_nil_cons in Hperm.
Qed.

(** ** Snapshots: which instances have one *)

Lemma firstOf_is_Some {A : Type} (key : A → Z) (i : Z) (data : list A) :
  is_Some (firstOf key i data) ↔ ∃ x, x ∈ data ∧ key x = i.
Proof.
  split.
  - intros [x Hx]. destruct (firstOf_Some _ _ _ _ Hx) as (Hk & j & Hj & _).
    exists x. split; [by eapply list_elem_of_lookup_2 | done].
  - intros (x & Hx & Hk). destruct (firstOf key i data) eqn:Hf; [by eauto|].
    by destruct (firstOf_None _ _ _ _ Hf Hx).
Qed.

(** X5. After a load an instance has a snapshot exactly when the response
    holds one for it, whatever was stored before; the snapshot stored under
    an id is one of the response and belongs to that instance. *)
Theorem loadSnapshots_keys (data : list Snapshot.t) (st : AppState) (i : Z) :
  (is_Some (snapshots (loadSnapshots (Ok data) st) !! i)
   ↔ ∃ s, s ∈ data ∧ Snapshot.instance s = i) ∧
  (∀ s, snapshots (loadSnapshots (Ok data) st) !! i = Some s →
        s ∈ data ∧ Snapshot.instance s = i).
Proof.
  simpl. split.
  - rewrite indexSnapshots_lookup. apply firstOf_is_Some.
  - intros s. apply indexSnapshots_elem.
Qed.

(** ** Loading the instance list *)

Lemma find_head (first : Instance.t) (rest : list Instance.t) :
  List.find (λ instance, Instance.id instance =? Instance.id first) (first :: rest)
  = Some first.
Proof. simpl. by rewrite Z.eqb_refl. Qed.

(** X6. When nothing was selected at the render that started the load, the
    first instance of a non-empty answer becomes the selected one, even
    over a selection made in the meantime; an empty answer, or a load
    started with a selection, leaves the selection as it is. *)
Theorem loadInstances_selection (seen : option Z) (data : list Instance.t)
    (st : AppState) :
  selectedId (loadInstances seen (Ok data) st)
  = match seen, data with
    | None, first :: _ => Some (Instance.id first)
    | _, _ => selectedId st
    end ∧
  (seen = None → data ≠ [] →
   selectedInstance (loadInstances seen (Ok data) st) = head data).
Proof.
  split.
  - unfold loadInstances. by destruct data as [|first rest], seen.
  - intros -> Hdata. unfold selectedInstance, loadInstances.
    destruct data as [|first rest]; [done|]. simpl. by rewrite Z.eqb_refl.
Qed.

Lemma loadInstances_selection_witness :
  (None : option Z) = None ∧
  [sampleInstance 7 "staging"; sampleInstance 3 "prod"] ≠ [] ∧
  selectedInstance
    (loadInstances None (Ok [sampleInstance 7 "staging"; sampleInstance 3 "prod"])
       (setSelectedId (Some 3) initialState))
  = Some (sampleInstance 7 "staging").
Proof.
  split; [reflexivity|]. split; [discriminate|].
  apply (proj2 (loadInstances_selection None
                  [sampleInstance 7 "staging"; sampleInstance 3 "prod"]
                  (setSelectedId (Some 3) initialState))); [reflexivity|discriminate].
Defined.

(** ** Creating a connection *)

(** X7. When the create request succeeds, the new instance is put in front
    of the list and becomes the selected one, and the form goes back to its
    defaults except for the name, however the follow-up check and reload
    turn out. *)
Theorem handleSubmit_created (created : Instance.t) (resCheck : response SetupInfo.t)
    (resStates : response (list SetupState.t)) (st : AppState) :
  let st' := handleSubmit (Ok created) resCheck resStates st in
  instances st' = created :: instances st ∧
  selectedId st' = Some (Instance.id created) ∧
  selectedInstance st' = Some created ∧
  form st' = {| form_name := form_name (form st); form_host := "";
                form_port := "5432"; form_dbname := ""; form_user := "";
                form_password := ""; form_ssl_mode := "prefer" |} ∧
  snapshots st' = snapshots st ∧ recommendations st' = recommendations st.
Proof.
  intros st'. unfold st', selectedInstance.
  destruct resCheck, resStates; simpl; rewrite Z.eqb_refl; done.
Qed.

(** ** Checking the setup *)

(** X8. After a successful check of the selected instance (whose id is not
    0) the readiness panel shows the fresh result whatever the reloaded
    setup states say: its status is the label, the guide is shown exactly
    when it is not ready, and the major version comes from it alone. *)
Theorem checkSetup_shows_result (i : Z) (info : SetupInfo.t)
    (resStates : response (list SetupState.t)) (st : AppState) :
  selectedId st = Some i → i ≠ 0 →
  let st' := checkSetup i (Ok info) resStates st in
  selectedSetup st' = Some info ∧
  statusLabel st' = SetupInfo.status info ∧
  showGuide st' = negb (SetupInfo.ready info) ∧
  selectedPgMajor st' = pgMajorVersion (Value (SetupInfo.pg_version_num info)).
Proof.
  intros Hsel Hi st'.
  assert (Hs : selectedSetup st' = Some info).
  { unfold st', selectedSetup, selected.
    destruct resStates; simpl; rewrite Hsel;
      destruct (Z.eqb_spec i 0); try done; apply lookup_insert_eq. }
  unfold statusLabel, showGuide, selectedPgMajor. by rewrite Hs.
Qed.

Lemma checkSetup_shows_result_witness :
  selectedId (setSelectedId (Some 1) initialState) = Some 1 ∧ 1 ≠ 0 ∧
  statusLabel (checkSetup 1 (Ok sampleInfo) (Ok [setupStateJan2])
                 (setSelectedId (Some 1) initialState)) = "PRELOAD_MISSING" ∧
  showGuide (checkSetup 1 (Ok sampleInfo) (Ok [setupStateJan2])
               (setSelectedId (Some 1) initialState)) = true.
Proof.
  split; [reflexivity|]. split; [lia|].
  destruct (checkSetup_shows_result 1 sampleInfo (Ok [setupStateJan2])
              (setSelectedId (Some 1) initialState) eq_refl ltac:(lia))
    as (_ & Hlabel & Hguide & _).
  split; [exact Hlabel | exact Hguide].
Defined.

(** X9. A successful check writes the result under the checked id only:
    the results kept for other instances stay, as do instances, snapshots,
    recommendations and selection; when the reload of the setup states
    fails the stored states stay too and an error is shown. *)
Theorem checkSetup_frame (i : Z) (info : SetupInfo.t)
    (resStates : response (list SetupState.t)) (st : AppState) :
  let st' := checkSetup i (Ok info) resStates st in
  setupInfo st' !! i = Some info ∧
  (∀ j, j ≠ i → setupInfo st' !! j = setupInfo st !! j) ∧
  instances st' = instances st ∧ snapshots st' = snapshots st ∧
  recommendations st' = recommendations st ∧ selectedId st' = selectedId st ∧
  (succeeded resStates = false →
   setupStates st' = setupStates st ∧ is_Some (error st')).
Proof.
  intros st'. unfold st'.
  destruct resStates as [data|body|[m|]]; simpl;
    (split; [apply lookup_insert_eq|]);
    (split; [intros j Hj; by apply lookup_insert_ne|]);
    do 4 (split; [done|]);
    intros Hf; try discriminate; (split; [done | by eexists]).
Qed.

Lemma checkSetup_frame_witness :
  succeeded (NotOk notFoundBody : response (list SetupState.t)) = false ∧
  setupInfo (checkSetup 1 (Ok sampleInfo) (NotOk notFoundBody) initialState) !! 1
    = Some sampleInfo ∧
  is_Some (error (checkSetup 1 (Ok sampleInfo) (NotOk notFoundBody) initialState)).
Proof.
  split; [reflexivity|].
  destruct (checkSetup_frame 1 sampleInfo (NotOk notFoundBody) initialState)
    as (Hinfo & _ & _ & _ & _ & _ & Hfail).
  split; [exact Hinfo | exact (proj2 (Hfail eq_refl))].
Defined.

(** ** How the handlers end *)

Ltac settle_cases :=
  simpl; repeat split; intros; try done; try discriminate.


(** X11. A handler whose own request fails changes nothing but the error
    and the busy flag: the instance list, the selection, the stored setup
    results, snapshots and recommendations, the form and the typed reset
    password are as before. *)
Theorem failed_request_keeps_data (instanceId : Z) (resCreate : response Instance.t)
    (resCheck : response SetupInfo.t) (resStates : response (list SetupState.t))
    (resAct : response unit) (resSnapshots : response (list Snapshot.t))
    (resRecommendations : response (list Recommendation.t)) (st : AppState) :
  (succeeded resCreate = false →
   sameExceptError (setBusyAction None st)
     (handleSubmit resCreate resCheck resStates st)) ∧
  (succeeded resCheck = false →
   sameExceptError (setBusyAction None st)
     (checkSetup instanceId resCheck resStates st)) ∧
  (succeeded resAct = false →
   sameExceptError (setBusyAction None st)
     (collectSnapshot instanceId resAct resSnapshots resRecommendations st) ∧
   sameExceptError (setBusyAction None st)
     (resetCredentials instanceId resAct resCheck resStates st)).
Proof.
  unfold sameExceptError.
  split; [|split]; intros Hfail.
  - destruct resCreate as [?|?|?]; [discriminate| |]; simpl; done.
  - destruct resCheck as [?|?|?]; [discriminate| |]; simpl; done.
  - destruct resAct as [?|?|?]; [discriminate| |]; simpl; done.
Qed.

Lemma failed_request_keeps_data_witness :
  succeeded (NotOk notFoundBody : response unit) = false ∧
  resetPassword (resetCredentials 1 (NotOk notFoundBody) (Ok sampleInfo) (Ok [])
                   (setResetPassword "s3cret" initialState)) = "s3cret".
Proof.
  split; [reflexivity|].
  destruct (failed_request_keeps_data 1 (Ok (sampleInstance 1 "a")) (Ok sampleInfo)
              (Ok []) (NotOk notFoundBody) (Ok []) (Ok [])
              (setResetPassword "s3cret" initialState))
    as (_ & _ & Hact).
  destruct (Hact eq_refl) as [_ Hreset].
  destruct Hreset as (_ & _ & _ & _ & _ & _ & _ & Hpw & _).
  symmetry. exact Hpw.
Defined.

(** X12. When the PATCH succeeds the typed password is cleared, so the
    reset button is disabled again, however the follow-up check turns out. *)
Theorem resetCredentials_clears_password (instanceId : Z)
    (resCheck : response SetupInfo.t) (resStates : response (list SetupState.t))
    (st : AppState) :
  resetPassword (resetCredentials instanceId (Ok tt) resCheck resStates st) = "" ∧
  resetDisabled (resetCredentials instanceId (Ok tt) resCheck resStates st) = true.
Proof.
  unfold resetDisabled.
  destruct resCheck as [?|?|?]; [destruct resStates as [?|?|?]|..]; settle_cases.
Qed.

(** ** Reloads in either order *)

(** X13. The two reloads that follow a successful collect write different
    cells: in either completion order the resulting states agree on
    everything but the error, and they are equal as soon as at most one of
    the reloads fails. *)
Theorem reloads_commute (resSnapshots : response (list Snapshot.t))
    (resRecommendations : response (list Recommendation.t)) (st : AppState) :
  sameExceptError
    (loadRecommendations resRecommendations (loadSnapshots resSnapshots st))
    (loadSnapshots resSnapshots (loadRecommendations resRecommendations st)) ∧
  (succeeded resSnapshots || succeeded resRecommendations = true →
   loadRecommendations resRecommendations (loadSnapshots resSnapshots st)
   = loadSnapshots resSnapshots (loadRecommendations resRecommendations st)).
Proof.
  unfold sameExceptError.
  destruct resSnapshots as [?|?|?], resRecommendations as [?|?|?]; settle_cases.
Qed.

Lemma reloads_commute_witness :
  succeeded (NotOk None : response (list Snapshot.t))
  || succeeded (Ok [sampleRec 1 1 0] : response (list Recommendation.t)) = true ∧
  loadRecommendations (Ok [sampleRec 1 1 0]) (loadSnapshots (NotOk None) initialState)
  = loadSnapshots (NotOk None) (loadRecommendations (Ok [sampleRec 1 1 0]) initialState).
Proof.
  split; [reflexivity|].
  apply (proj2 (reloads_commute (NotOk None) (Ok [sampleRec 1 1 0]) initialState)).
  reflexivity.
Defined.

(** ** Start-up *)

Lemma runLoad_setupInfo (seen : option Z) (l : load) (st : AppState) :
  setupInfo (runLoad seen l st) = setupInfo st.
Proof.
  destruct l as [[data| |]|[| |]|[| |]|[| |]]; simpl; try done.
  by destruct data, seen.
Qed.

Lemma settle_setupInfo (seen : option Z) (completed : list load) (st : AppState) :
  setupInfo (settle seen completed st) = setupInfo st.
Proof.
  revert st. induction completed as [|l completed IH]; intros st; [done|].
  unfold settle in *. simpl. by rewrite IH, runLoad_setupInfo.
Qed.

(** X14. Loads alone never bring up the setup guide: starting from the
    initial state, after any loads in any order and with any responses, the
    guide is hidden and the status badge says READY or CHECK NEEDED; only a
    check can show anything else. *)
Theorem settle_hides_guide (seen : option Z) (completed : list load) :
  showGuide (settle seen completed initialState) = false ∧
  (statusLabel (settle seen completed initialState) = "READY" ∨
   statusLabel (settle seen completed initialState) = "CHECK NEEDED").
Proof.
  assert (Hnone : selectedSetup (settle seen completed initialState) = None).
  { unfold selectedSetup, selected. rewrite settle_setupInfo. simpl.
    destruct (selectedId _) as [i|]; [|done]. by destruct (i =? 0). }
  unfold showGuide, statusLabel. rewrite Hnone. split; [done|].
  destruct (selectedSetupState _) as [state|]; [|by right].
  destruct (SetupState.ready state); [by left | by right].
Qed.

Ltac each_order H :=
  repeat (apply elem_of_cons in H as [->|H]); [..|by apply elem_of_nil in H].

Lemma runLoad_writes (seen : option Z) (l : load) (st : AppState) :
  runLoad seen l st = writeLoad seen l st.
Proof.
  destruct st, seen, l as [[[|? ?]|?|?]|[?|?|?]|[?|?|?]|[?|?|?]]; reflexivity.
Qed.

Lemma settle_writes (seen : option Z) (completed : list load) (st : AppState) :
  settle seen completed st = fold_left (λ st l, writeLoad seen l st) completed st.
Proof.
  revert st. induction completed as [|l completed IH]; intros st; [done|].
  unfold settle in *. simpl. by rewrite IH, runLoad_writes.
Qed.

Lemma runLoad_error (seen : option Z) (l : load) (st : AppState) :
  (loadSucceeded l = true → error (runLoad seen l st) = error st) ∧
  (loadSucceeded l = false → is_Some (error (runLoad seen l st))) ∧
  (is_Some (error st) → is_Some (error (runLoad seen l st))).
Proof.
  rewrite runLoad_writes.
  destruct l as [res|res|res|res]; destruct res as [?|?|[?|]]; simpl;
    repeat split; intros; try done; try discriminate; by eexists.
Qed.

Lemma settle_error_kept (seen : option Z) (completed : list load) (st : AppState) :
  Forall (λ l, loadSucceeded l = true) completed →
  error (settle seen completed st) = error st.
Proof.
  intros Hall. revert st. induction Hall as [|l completed Hl _ IH]; intros st; [done|].
  unfold settle in *. simpl. rewrite IH.
  by apply (proj1 (runLoad_error seen l st)).
Qed.

Lemma settle_error_stays (seen : option Z) (completed : list load) (st : AppState) :
  is_Some (error st) → is_Some (error (settle seen completed st)).
Proof.
  revert st. induction completed as [|l completed IH]; intros st Herr; [done|].
  unfold settle in *. simpl. apply IH.
  by apply (proj2 (proj2 (runLoad_error seen l st))).
Qed.

Lemma settle_error_shown (seen : option Z) (completed : list load) (st : AppState) :
  Exists (λ l, loadSucceeded l = false) completed →
  is_Some (error (settle seen completed st)).
Proof.
  intros Hex. revert st. induction Hex as [l completed Hl|l completed _ IH]; intros st.
  - change (settle seen (l :: completed) st)
      with (settle seen completed (runLoad seen l st)).
    apply settle_error_stays. by apply (proj1 (proj2 (runLoad_error seen l st))).
  - change (settle seen (l :: completed) st)
      with (settle seen completed (runLoad seen l st)).
    apply IH.
Qed.

(** X15. The four loads of [initialize] may complete in any order: the
    instance list, selection, setup states, snapshots and recommendations
    come out the same, an error already shown stays when all four succeed,
    and some error is shown when one of them fails. *)
Theorem initialize_any_order (seen : option Z)
    (resInstances : response (list Instance.t))
    (resStates : response (list SetupState.t))
    (resSnapshots : response (list Snapshot.t))
    (resRecommendations : response (list Recommendation.t))
    (completed : list load) (st : AppState) :
  completed ≡ₚ [LoadInstances resInstances; LoadSetupStates resStates;
                LoadSnapshots resSnapshots; LoadRecommendations resRecommendations] →
  sameExceptError (settle seen completed st)
    (initialize seen resInstances resStates resSnapshots resRecommendations st) ∧
  (succeeded resInstances && succeeded resStates && succeeded resSnapshots
   && succeeded resRecommendations = true →
   error (settle seen completed st) = error st) ∧
  (succeeded resInstances && succeeded resStates && succeeded resSnapshots
   && succeeded resRecommendations = false →
   is_Some (error (settle seen completed st))).
Proof.
  intros Hperm. split; [|split].
  - symmetry in Hperm. apply permutations_Permutation in Hperm.
    unfold sameExceptError, initialize. rewrite !settle_writes.
    cbn in Hperm. each_order Hperm; simpl; done.
  - intros Hall. apply settle_error_kept. rewrite Hperm.
    repeat (apply andb_prop in Hall as [Hall ?]).
    repeat constructor; done.
  - intros Hsome. apply settle_error_shown. rewrite Hperm.
    destruct (succeeded resInstances) eqn:?; [|by left].
    destruct (succeeded resStates) eqn:?; [|by right; left].
    destruct (succeeded resSnapshots) eqn:?; [|by right; right; left].
    right; right; right; left. done.
Qed.

Lemma initialize_any_order_witness :
  [LoadRecommendations (Ok [sampleRec 1 1 0]); LoadSnapshots (NotOk None);
   LoadSetupStates (Ok [setupStateJan2]); LoadInstances (Ok [sampleInstance 1 "a"])]
  ≡ₚ [LoadInstances (Ok [sampleInstance 1 "a"]); LoadSetupStates (Ok [setupStateJan2]);
      LoadSnapshots (NotOk None); LoadRecommendations (Ok [sampleRec 1 1 0])] ∧
  selectedId
    (settle None [LoadRecommendations (Ok [sampleRec 1 1 0]); LoadSnapshots (NotOk None);
             LoadSetupStates (Ok [setupStateJan2]);
             LoadInstances (Ok [sampleInstance 1 "a"])] initialState)
  = Some 1.
Proof.
  assert (Hperm :
    [LoadRecommendations (Ok [sampleRec 1 1 0]); LoadSnapshots (NotOk None);
     LoadSetupStates (Ok [setupStateJan2]); LoadInstances (Ok [sampleInstance 1 "a"])]
    ≡ₚ [LoadInstances (Ok [sampleInstance 1 "a"]); LoadSetupStates (Ok [setupStateJan2]);
        LoadSnapshots (NotOk None); LoadRecommendations (Ok [sampleRec 1 1 0])]).
  { apply (Permutation_rev [_; _; _; _]). }
  split; [exact Hperm|].
  destruct (initialize_any_order None _ _ _ _ _ initialState Hperm)
    as [(_ & _ & _ & _ & _ & Hsel & _) _].
  rewrite Hsel. reflexivity.
Defined.

(** ** The readiness badge *)

(** X16. After a successful check of the selected instance and a successful
    reload, the badge is highlighted when the fresh result is ready or the
    first setup state listed for the instance is: a fresh result that is
    not ready does not switch the highlight off by itself. *)
Theorem checkSetup_highlight (i : Z) (info : SetupInfo.t)
    (data : list SetupState.t) (st : AppState) :
  selectedId st = Some i → i ≠ 0 →
  readyHighlight (checkSetup i (Ok info) (Ok data) st)
  = SetupInfo.ready info
    || match firstOf SetupState.instance i data with
       | Some state => SetupState.ready state
       | None => false
       end.
Proof.
  intros Hsel Hi.
  unfold readyHighlight, selectedSetup, selectedSetupState, selected. simpl.
  rewrite Hsel. destruct (Z.eqb_spec i 0); [done|].
  by rewrite lookup_insert_eq, indexSetupStates_lookup.
Qed.

Lemma checkSetup_highlight_witness :
  selectedId (setSelectedId (Some 1) initialState) = Some 1 ∧ 1 ≠ 0 ∧
  readyHighlight (checkSetup 1 (Ok sampleInfo) (Ok [setupStateJan2; setupStateJan1])
                    (setSelectedId (Some 1) initialState)) = true.
Proof.
  split; [reflexivity|]. split; [lia|].
  rewrite (checkSetup_highlight 1 sampleInfo [setupStateJan2; setupStateJan1]
             (setSelectedId (Some 1) initialState) eq_refl ltac:(lia)).
  reflexivity.
Defined.
